(** * Binary Fusion Tap: a shallow embedding of [examples/binary_fusion_tap.c]

    The C program derives three unsigned 64-bit values from one [int]
    parameter [k]:  a seed parsed from the decimal text "12...k", a tap
    state (seed shifted left by three, plus [k]) and an overflow word
    (gated by [k < 10]).  It then prints a four line report.

    Conventions of the embedding.
    - [int] and [uint64_t] values are [Z]; every unsigned operation has its
      reduction modulo [2^64] written out.
    - C strings are [string]; a [char buf[N]] holds at most [N - 1]
      characters before the terminating NUL.  Writing past the array is
      undefined behaviour in C: the model returns [None] there.
    - Standard output is the text written, in order; sequencing is [++].
    - The recursion of [print_binary] is driven by a depth budget; running
      out of budget is [None], and the budget is proved sufficient.  *)

From Stdlib Require Import ZArith Lia List Bool Ascii String.
From Stdlib Require Import Decimal DecimalString DecimalZ DecimalN.
From Stdlib.Strings Require Byte.
Import ListNotations.

#[local] Open Scope string_scope.
#[local] Open Scope Z_scope.

(** ** Machine integers *)

Module U64.

Definition modulus : Z := 2 ^ 64.
Definition ULLONG_MAX : Z := modulus - 1.

(** Conversion to [uint64_t] (C11 6.3.1.3): reduction modulo [2^64]. *)
Definition wrap (z : Z) : Z := z mod modulus.

Definition add (a b : Z) : Z := wrap (a + b).
Definition mul (a b : Z) : Z := wrap (a * b).
Definition shl (a n : Z) : Z := wrap (Z.shiftl a n).
Definition xor (a b : Z) : Z := Z.lxor a b.
Definition div (a b : Z) : Z := a / b.
Definition rem (a b : Z) : Z := a mod b.

Definition in_range (z : Z) : Prop := 0 <= z < modulus.

End U64.

Definition INT_MAX : Z := 2 ^ 31 - 1.

(** ** The C library functions the program calls *)

Module Libc.

(** [printf("%d", i)] / [sprintf(buf, "%d", i)]: signed decimal text. *)
Definition fmt_d (i : Z) : string := NilZero.string_of_int (Z.to_int i).

(** [printf("%llu", n)]: unsigned decimal text. *)
Definition fmt_llu (n : Z) : string :=
  NilZero.string_of_uint (N.to_uint (Z.to_N n)).

(** [strcat(dst, src)] where [dst] is a [char[size]]: the result needs
    [strlen dst + strlen src + 1] bytes.  [None] when that exceeds the
    array. *)
Definition strcat (size : nat) (dst src : string) : option string :=
  if (String.length dst + String.length src + 1 <=? size)%nat
  then Some (dst ++ src)
  else None.

Definition isspace (c : ascii) : bool :=
  let n := N_of_ascii c in
  (n =? 32)%N || ((9 <=? n)%N && (n <=? 13)%N).

Definition digit_val (c : ascii) : option Z :=
  let n := Z.of_N (N_of_ascii c) in
  if (48 <=? n) && (n <=? 57) then Some (n - 48) else None.

Fixpoint skip_space (s : string) : string :=
  match s with
  | String c s' => if isspace c then skip_space s' else s
  | EmptyString => s
  end.

(** The value of the longest prefix of decimal digits, as a mathematical
    integer, starting from [acc]. *)
Fixpoint digits_value (s : string) (acc : Z) : Z :=
  match s with
  | String c s' =>
      match digit_val c with
      | Some d => digits_value s' (acc * 10 + d)
      | None => acc
      end
  | EmptyString => acc
  end.

(** [strtoull(s, NULL, 10)] (C11 7.22.1.4): skip white space, read an
    optional sign and the longest run of digits.  No digits: 0.  A value
    above [ULLONG_MAX]: [ULLONG_MAX] (and [errno = ERANGE]).  A minus
    sign negates the value in the return type. *)
Definition strtoull (s : string) : Z :=
  let s1 := skip_space s in
  let '(neg, s2) :=
    match s1 with
    | String "-" t => (true, t)
    | String "+" t => (false, t)
    | _ => (false, s1)
    end in
  let v := digits_value s2 0 in
  if U64.ULLONG_MAX <? v then U64.ULLONG_MAX
  else if neg then U64.wrap (- v) else v.

End Libc.

(** ** The program *)

Record BinaryFusionResult : Set := mkResult {
  k : Z;              (* int *)
  seed_value : Z;     (* uint64_t *)
  tap_state : Z;      (* uint64_t *)
  zpe_overflow : Z    (* uint64_t *)
}.

(** The body of [for (int i = 1; i <= k; i++)] in [generate_seed], run
    [n] more times with the counter at [i]:
    [sprintf(temp, "%d", i); strcat(seed_str, temp);]
    where [seed_str] is a [char[256]]. *)
Fixpoint seed_loop (n : nat) (i : Z) (seed_str : string) : option string :=
  match n with
  | O => Some seed_str
  | S n' =>
      let temp := Libc.fmt_d i in
      match Libc.strcat 256 seed_str temp with
      | Some seed_str' => seed_loop n' (i + 1) seed_str'
      | None => None
      end
  end.

(** [uint64_t generate_seed(int k)].  The loop runs for [i = 1 .. k], that
    is [Z.to_nat k] times (not at all when [k <= 0]). *)
Definition generate_seed (k : Z) : option Z :=
  match seed_loop (Z.to_nat k) 1 "" with
  | Some seed_str => Some (Libc.strtoull seed_str)
  | None => None
  end.

(** [BinaryFusionResult binary_fusion_tap(int k)].  In
    [heartbeat_val + k] the [int] operand is converted to [uint64_t]. *)
Definition binary_fusion_tap (k : Z) : option BinaryFusionResult :=
  match generate_seed k with
  | None => None
  | Some seed_value =>
      let heartbeat_val := U64.shl seed_value 3 in
      let tap_state := U64.add heartbeat_val (U64.wrap k) in
      let zpe_overflow :=
        if k <? 10 then 0
        else U64.xor tap_state (U64.mul seed_value 8) in
      Some (mkResult k seed_value tap_state zpe_overflow)
  end.

(** [void print_binary(uint64_t n)]: the text written to standard output.
    [depth] bounds the nesting of the recursive calls. *)
Fixpoint print_binary (depth : nat) (n : Z) : option string :=
  match depth with
  | O => None
  | S depth' =>
      match (if 1 <? n then print_binary depth' (U64.div n 2) else Some "") with
      | Some out => Some (out ++ Libc.fmt_llu (U64.rem n 2))
      | None => None
      end
  end.

Definition newline : string := String (ascii_of_nat 10) EmptyString.

(** [int main()]: the text written to standard output. *)
Definition main : option string :=
  match binary_fusion_tap 11 with
  | None => None
  | Some result =>
      match print_binary 64 (tap_state result),
            print_binary 64 (zpe_overflow result) with
      | Some tap_bits, Some zpe_bits =>
          Some ("K Parameter: " ++ Libc.fmt_d (k result) ++ newline
                ++ "Seed Value: " ++ Libc.fmt_llu (seed_value result) ++ newline
                ++ "Tap State: 0b"
                ++ tap_bits
                ++ newline
                ++ "ZPE Overflow: 0b"
                ++ zpe_bits
                ++ " (decimal: " ++ Libc.fmt_llu (zpe_overflow result)
                ++ ")" ++ newline)
      | _, _ => None
      end
  end.

(** ** Reference definitions used to state the properties *)

(** The exact value of the decimal numeral "12...n": appending the text of
    [S m] multiplies by ten to the number of its digits. *)
Definition num_digits (i : Z) : Z :=
  Z.of_nat (Decimal.nb_digits (N.to_uint (Z.to_N i))).

Fixpoint concat_numeral_nat (n : nat) : Z :=
  match n with
  | O => 0
  | S m =>
      let i := Z.of_nat (S m) in
      concat_numeral_nat m * 10 ^ num_digits i + i
  end.

Definition concat_numeral (k : Z) : Z := concat_numeral_nat (Z.to_nat k).

(** A base-2 numeral, most significant digit first. *)
Fixpoint parse_binary_from (s : string) (acc : Z) : option Z :=
  match s with
  | EmptyString => Some acc
  | String c t =>
      if Ascii.eqb c "0" then parse_binary_from t (2 * acc)
      else if Ascii.eqb c "1" then parse_binary_from t (2 * acc + 1)
      else None
  end.

Definition parse_binary (s : string) : option Z :=
  match s with
  | EmptyString => None
  | _ => parse_binary_from s 0
  end.

Definition is_bit (c : ascii) : Prop := c = "0"%char \/ c = "1"%char.

(** The report of the specification: one field per line. *)
Definition unlines (ls : list string) : string :=
  String.concat "" (map (fun l => l ++ newline) ls).

Definition report_lines (k_dec seed_dec tap_bin zpe_bin zpe_dec : string)
  : list string :=
  [ "K Parameter: " ++ k_dec;
    "Seed Value: " ++ seed_dec;
    "Tap State: 0b" ++ tap_bin;
    "ZPE Overflow: 0b" ++ zpe_bin ++ " (decimal: " ++ zpe_dec ++ ")" ].

(** Boolean tests, to settle a finite range of [k] by running the code. *)
Definition seed_is (v : Z) (k : Z) : bool :=
  match generate_seed k with
  | Some s => s =? v
  | None => false
  end.

Definition seed_exact (k : Z) : bool := seed_is (concat_numeral k) k.

(** The decimal texts of [i], [i + 1], ... ([n] of them), one after the
    other: what the loop of [generate_seed] is meant to leave in
    [seed_str]. *)
Fixpoint seed_text (n : nat) (i : Z) : string :=
  match n with
  | O => ""
  | S n' => Libc.fmt_d i ++ seed_text n' (i + 1)
  end.

Definition INT_MIN : Z := - 2 ^ 31.

(** ** The second program: [oqs/kyber_test.c]

    A key exchange demonstration on top of liboqs.  The library is not part
    of the repository: what it did in one run (the method table returned by
    [OQS_KEM_new], which calls of [malloc] gave NULL, the status and the
    bytes each operation left in its output buffers) is a [World], and the
    program is a function of it.  Standard output and standard error are
    two texts; a read past the end of a buffer is [None]. *)

Module KyberTest.

(** The digit [d] of "0123456789abcdef". *)
Definition hex_digit (d : N) : ascii :=
  if (d <? 10)%N then ascii_of_N (48 + d) else ascii_of_N (87 + d).

(** [printf("%02x", b)] for a [uint8_t]: two lower case hexadecimal
    digits. *)
Definition fmt_02x (b : Byte.byte) : string :=
  let n := Byte.to_N b in
  String (hex_digit (n / 16)) (String (hex_digit (n mod 16)) "").

(** [printf("%zu", n)]: unsigned decimal text. *)
Definition fmt_zu (n : Z) : string :=
  NilZero.string_of_uint (N.to_uint (Z.to_N n)).

Fixpoint bytes_eqb (a b : list Byte.byte) : bool :=
  match a, b with
  | [], [] => true
  | x :: a', y :: b' => Byte.eqb x y && bytes_eqb a' b'
  | _, _ => false
  end.

(** [memcmp(a, b, n) == 0]: both arrays hold [n] bytes, and the test is
    whether the first [n] agree. *)
Definition memcmp_is_zero (a b : list Byte.byte) (n : Z) : option bool :=
  if (n <=? Z.of_nat (List.length a)) && (n <=? Z.of_nat (List.length b))
  then Some (bytes_eqb (firstn (Z.to_nat n) a) (firstn (Z.to_nat n) b))
  else None.

(** The body of [for (size_t i = 0; i < (len > 32 ? 32 : len); i++)] in
    [print_hex], run [n] more times with the index at [i]:
    [printf("%02x", data[i]);] *)
Fixpoint hex_loop (n : nat) (i : nat) (data : list Byte.byte) : option string :=
  match n with
  | O => Some ""
  | S n' =>
      match nth_error data i with
      | Some b =>
          match hex_loop n' (S i) data with
          | Some rest => Some (fmt_02x b ++ rest)
          | None => None
          end
      | None => None
      end
  end.

(** [void print_hex(const char *label, const uint8_t *data, size_t len)]:
    the text written to standard output. *)
Definition print_hex (label : string) (data : list Byte.byte) (len : Z)
  : option string :=
  match hex_loop (Z.to_nat (if 32 <? len then 32 else len)) 0 data with
  | Some hex =>
      Some (label ++ ": " ++ hex
            ++ (if 32 <? len
                then "... (" ++ fmt_zu len ++ " bytes total)"
                else "")
            ++ newline)
  | None => None
  end.

Inductive OQS_STATUS : Set :=
| OQS_ERROR
| OQS_SUCCESS
| OQS_EXTERNAL_LIB_ERROR_OPENSSL.

Definition is_success (rc : OQS_STATUS) : bool :=
  match rc with
  | OQS_SUCCESS => true
  | _ => false
  end.

(** The fields of [OQS_KEM] the program reads. *)
Record OQS_KEM : Set := mkKEM {
  method_name : string;
  claimed_nist_level : Z;
  length_public_key : Z;        (* size_t *)
  length_secret_key : Z;        (* size_t *)
  length_ciphertext : Z;        (* size_t *)
  length_shared_secret : Z      (* size_t *)
}.

Record World : Type := mkWorld {
  (* OQS_KEM_new(OQS_KEM_alg_kyber_768): NULL or the method table *)
  OQS_KEM_new : option OQS_KEM;
  (* whether the i-th call of malloc, in program order from 0, gave NULL *)
  malloc_null : nat -> bool;
  (* OQS_KEM_keypair: status, public_key, secret_key *)
  OQS_KEM_keypair : OQS_STATUS * list Byte.byte * list Byte.byte;
  (* OQS_KEM_encaps on a public key: status, ciphertext, shared secret *)
  OQS_KEM_encaps : list Byte.byte -> OQS_STATUS * list Byte.byte * list Byte.byte;
  (* OQS_KEM_decaps on a ciphertext and a secret key: status, shared secret *)
  OQS_KEM_decaps : list Byte.byte -> list Byte.byte -> OQS_STATUS * list Byte.byte
}.

Inductive exit_status : Set := EXIT_SUCCESS | EXIT_FAILURE.

Record Outcome : Set := mkOutcome {
  stdout : string;
  stderr : string;
  status : exit_status
}.

(** [return (rc == OQS_SUCCESS) ? EXIT_SUCCESS : EXIT_FAILURE;] after the
    [cleanup] label (clearing and freeing the buffers writes no text). *)
Definition cleanup (out err : string) (rc : OQS_STATUS) : Outcome :=
  mkOutcome out err (if is_success rc then EXIT_SUCCESS else EXIT_FAILURE).

Notation "x <- e ;; f" :=
  (match e with Some x => f | None => None end)
  (at level 61, e at next level, right associativity, only parsing).

(** [int main(void)]. *)
Definition main (w : World) : option Outcome :=
  let out0 :=
    unlines [ "========================================";
              "Kyber-768 Key Exchange Test";
              "Post-Quantum Cryptography (NIST FIPS 203)";
              "========================================"; "" ] in
  match OQS_KEM_new w with
  | None =>
      Some (mkOutcome out0
              (unlines
                 [ "ERROR: OQS_KEM_new failed for Kyber768";
                   "Make sure liboqs is properly installed with Kyber support." ])
              EXIT_FAILURE)
  | Some kem =>
  let out1 :=
    out0 ++
    unlines [ "Algorithm: " ++ method_name kem;
              "NIST Security Level: " ++ Libc.fmt_d (claimed_nist_level kem);
              "Public Key Size: " ++ fmt_zu (length_public_key kem) ++ " bytes";
              "Secret Key Size: " ++ fmt_zu (length_secret_key kem) ++ " bytes";
              "Ciphertext Size: " ++ fmt_zu (length_ciphertext kem) ++ " bytes";
              "Shared Secret Size: " ++ fmt_zu (length_shared_secret kem)
                ++ " bytes"; "" ] in
  if malloc_null w 0 || malloc_null w 1 || malloc_null w 2
     || malloc_null w 3 || malloc_null w 4
  then Some (mkOutcome out1 (unlines [ "ERROR: Memory allocation failed" ])
               EXIT_FAILURE)
  else
  let out2 :=
    out1 ++
    unlines [ "Step 1: Alice generates keypair";
              "-----------------------------------" ] in
  let '(rc, public_key, secret_key) := OQS_KEM_keypair w in
  if negb (is_success rc)
  then Some (cleanup out2 (unlines [ "ERROR: OQS_KEM_keypair failed" ]) rc)
  else
  pk_hex <- print_hex "Public Key" public_key (length_public_key kem) ;;
  sk_hex <- print_hex "Secret Key" secret_key (length_secret_key kem) ;;
  let out3 :=
    out2 ++ pk_hex ++ sk_hex ++
    unlines [ "✓ Keypair generated successfully"; "";
              "Step 2: Bob encapsulates shared secret";
              "-----------------------------------";
              "Bob uses Alice's public key to create a shared secret" ] in
  let '(rc, ciphertext, shared_secret_bob) := OQS_KEM_encaps w public_key in
  if negb (is_success rc)
  then Some (cleanup out3 (unlines [ "ERROR: OQS_KEM_encaps failed" ]) rc)
  else
  ct_hex <- print_hex "Ciphertext" ciphertext (length_ciphertext kem) ;;
  bob_hex <- print_hex "Bob's Shared Secret" shared_secret_bob
               (length_shared_secret kem) ;;
  let out4 :=
    out3 ++ ct_hex ++ bob_hex ++
    unlines [ "✓ Encapsulation successful"; "";
              "Step 3: Alice decapsulates shared secret";
              "-----------------------------------";
              "Alice uses her secret key to recover the shared secret" ] in
  let '(rc, shared_secret_alice) := OQS_KEM_decaps w ciphertext secret_key in
  if negb (is_success rc)
  then Some (cleanup out4 (unlines [ "ERROR: OQS_KEM_decaps failed" ]) rc)
  else
  alice_hex <- print_hex "Alice's Shared Secret" shared_secret_alice
                 (length_shared_secret kem) ;;
  let out5 :=
    out4 ++ alice_hex ++
    unlines [ "✓ Decapsulation successful"; "";
              "Step 4: Verify shared secrets match";
              "-----------------------------------" ] in
  same <- memcmp_is_zero shared_secret_alice shared_secret_bob
            (length_shared_secret kem) ;;
  let closing :=
    unlines [ ""; "========================================";
              "Kyber-768 is quantum-resistant and provides";
              "security equivalent to AES-192 against both";
              "classical and quantum computers.";
              "========================================" ] in
  if same
  then Some (cleanup
               (out5 ++
                unlines
                  [ "✓ SUCCESS: Both parties have the same shared secret!";
                    "✓ Key exchange completed successfully"; "";
                    "This shared secret can now be used for symmetric encryption." ]
                ++ closing)
               "" OQS_SUCCESS)
  else Some (cleanup (out5 ++ closing)
               (unlines [ "✗ FAILURE: Shared secrets do not match!" ])
               OQS_ERROR)
  end.

(** Reference definitions for this program. *)

(** How many bytes [print_hex] shows of [len]: at most 32. *)
Definition shown (len : Z) : nat := Z.to_nat (if 32 <? len then 32 else len).

(** The bytes of [bs] as hexadecimal text, two digits each. *)
Definition hex_of_bytes (bs : list Byte.byte) : string :=
  String.concat "" (map fmt_02x bs).

Definition hex_val (c : ascii) : option N :=
  let n := N_of_ascii c in
  if (48 <=? n)%N && (n <=? 57)%N then Some (n - 48)%N
  else if (97 <=? n)%N && (n <=? 102)%N then Some (n - 87)%N
  else None.

(** Reading hexadecimal text back, two digits a byte. *)
Fixpoint unhex (s : string) : option (list Byte.byte) :=
  match s with
  | EmptyString => Some []
  | String hi (String lo t) =>
      match hex_val hi, hex_val lo, unhex t with
      | Some h, Some l, Some bs =>
          match Byte.of_N (16 * h + l) with
          | Some b => Some (b :: bs)
          | None => None
          end
      | _, _, _ => None
      end
  | String _ EmptyString => None
  end.

(** The library kept its contract in this run: every output buffer holds
    as many bytes as the method table says (they were allocated so). *)
Definition buffers_sized (w : World) : Prop :=
  match OQS_KEM_new w with
  | None => True
  | Some kem =>
      let '(_, pk, sk) := OQS_KEM_keypair w in
      let '(_, ct, ssb) := OQS_KEM_encaps w pk in
      let '(_, ssa) := OQS_KEM_decaps w ct sk in
      Z.of_nat (List.length pk) = length_public_key kem /\
      Z.of_nat (List.length sk) = length_secret_key kem /\
      Z.of_nat (List.length ct) = length_ciphertext kem /\
      Z.of_nat (List.length ssb) = length_shared_secret kem /\
      Z.of_nat (List.length ssa) = length_shared_secret kem
  end.

(** Every step of the exchange succeeded and the two secrets agree. *)
Definition exchange_ok (w : World) : Prop :=
  exists kem pk sk ct ssb ssa,
    OQS_KEM_new w = Some kem /\
    (forall i, (i < 5)%nat -> malloc_null w i = false) /\
    OQS_KEM_keypair w = (OQS_SUCCESS, pk, sk) /\
    OQS_KEM_encaps w pk = (OQS_SUCCESS, ct, ssb) /\
    OQS_KEM_decaps w ct sk = (OQS_SUCCESS, ssa) /\
    firstn (Z.to_nat (length_shared_secret kem)) ssa =
    firstn (Z.to_nat (length_shared_secret kem)) ssb.

(** A small run with the sizes of Kyber-768, on buffers of one repeated
    byte each, in which [decaps] returns what [encaps] produced. *)
Definition kyber768 : OQS_KEM := mkKEM "Kyber768" 3 1184 2400 1088 32.

Definition toy_world : World :=
  mkWorld (Some kyber768) (fun _ => false)
    (OQS_SUCCESS, repeat Byte.x1f 1184, repeat Byte.xa0 2400)
    (fun _ => (OQS_SUCCESS, repeat Byte.x07 1088, repeat Byte.xc3 32))
    (fun _ _ => (OQS_SUCCESS, repeat Byte.xc3 32)).

End KyberTest.

(** ** Sanity checks of the embedding on the documented scenarios *)

Example example_k1 : binary_fusion_tap 1 = Some (mkResult 1 1 9 0).
Proof. reflexivity. Qed.

Example example_k9 :
  binary_fusion_tap 9 = Some (mkResult 9 123456789 987654321 0).
Proof. reflexivity. Qed.

Example concat_numeral_11 : concat_numeral 11 = 1234567891011.
Proof. reflexivity. Qed.

Example concat_numeral_16 : concat_numeral 16 = 12345678910111213141516.
Proof. reflexivity. Qed.

Example strtoull_examples :
  Libc.strtoull "" = 0 /\ Libc.strtoull "12a" = 12 /\
  Libc.strtoull " +7" = 7 /\
  Libc.strtoull "18446744073709551615" = U64.ULLONG_MAX /\
  Libc.strtoull "18446744073709551616" = U64.ULLONG_MAX.
Proof. repeat split. Qed.

(** ** Arithmetic modulo [2^64] *)

(** Closes a range goal on concrete 64-bit numbers. *)
Ltac u64_range :=
  unfold U64.in_range, U64.ULLONG_MAX, U64.modulus; lia.

Section Wraparound.

Lemma modulus_pos : 0 < U64.modulus.
Proof. reflexivity. Qed.

Lemma modulus_eq : U64.modulus = 18446744073709551616.
Proof. reflexivity. Qed.

Lemma wrap_range z : U64.in_range (U64.wrap z).
Proof. apply Z.mod_pos_bound, modulus_pos. Qed.

Lemma wrap_small z : U64.in_range z -> U64.wrap z = z.
Proof. apply Z.mod_small. Qed.

Lemma shl3_mul8 s : U64.shl s 3 = U64.mul s 8.
Proof.
  unfold U64.shl, U64.mul. now rewrite Z.shiftl_mul_pow2 by lia.
Qed.

Lemma eight_divides_modulus : (8 | U64.modulus).
Proof. exists (2 ^ 61). reflexivity. Qed.

(** The sum of two reduced operands, reduced, is the reduced sum. *)
Lemma add_wrap_wrap a b : U64.add (U64.wrap a) (U64.wrap b) = U64.wrap (a + b).
Proof. unfold U64.add, U64.wrap. symmetry. apply Zplus_mod. Qed.

Lemma wrap_mod8 z : U64.wrap z mod 8 = z mod 8.
Proof.
  unfold U64.wrap. apply Z.mod_mod_divide, eight_divides_modulus.
Qed.

(** Adding a non-zero offset below [2^64] moves a 64-bit word. *)
Lemma add_offset_moves a d :
  U64.in_range a -> 0 < d < U64.modulus -> U64.add a d <> a.
Proof.
  unfold U64.in_range, U64.add, U64.wrap. rewrite modulus_eq.
  intros Ha Hd E.
  destruct (Z_lt_ge_dec (a + d) 18446744073709551616) as [Hlt | Hge].
  - rewrite Z.mod_small in E by lia. lia.
  - replace (a + d) with ((a + d - 18446744073709551616)
                          + 1 * 18446744073709551616) in E by lia.
    rewrite Z_mod_plus_full, Z.mod_small in E by lia. lia.
Qed.

End Wraparound.

(** ** The seed loop and the 256 byte buffer *)

Section SeedLoop.

(** Running [a + b] iterations is running [a], then [b] from where the
    counter and the buffer stand. *)
Lemma seed_loop_app a b i buf :
  seed_loop (a + b) i buf =
  match seed_loop a i buf with
  | Some buf' => seed_loop b (i + Z.of_nat a) buf'
  | None => None
  end.
Proof.
  revert i buf. induction a as [| a IH]; intros i buf.
  - cbn [seed_loop Nat.add]. now rewrite Z.add_0_r.
  - cbn [seed_loop Nat.add].
    destruct (Libc.strcat 256 buf (Libc.fmt_d i)) as [buf' |]; [| reflexivity].
    rewrite IH. replace (i + 1 + Z.of_nat a) with (i + Z.of_nat (S a)) by lia.
    reflexivity.
Qed.

(** The text of 1..121 takes 255 characters; that of 122 does not fit. *)
Lemma seed_loop_122 : seed_loop 122 1 "" = None.
Proof. vm_compute. reflexivity. Qed.

Lemma generate_seed_overrun k : 122 <= k -> generate_seed k = None.
Proof.
  intros Hk. unfold generate_seed.
  replace (Z.to_nat k) with (122 + (Z.to_nat k - 122))%nat by lia.
  now rewrite seed_loop_app, seed_loop_122.
Qed.

Lemma seed_of_nonpositive k : k <= 0 -> generate_seed k = Some 0.
Proof.
  intros Hk. unfold generate_seed.
  replace (Z.to_nat k) with O by lia. reflexivity.
Qed.

(** Every [k] of a finite interval, by running the code on each. *)
Lemma forall_interval (P : Z -> bool) (lo : nat) (len : nat) :
  forallb P (map Z.of_nat (seq lo len)) = true ->
  forall k, Z.of_nat lo <= k < Z.of_nat lo + Z.of_nat len -> P k = true.
Proof.
  intros Hall k Hk. rewrite forallb_forall in Hall. apply Hall.
  rewrite <- (Z2Nat.id k) by lia. apply in_map, in_seq. lia.
Qed.

Lemma seed_is_spec v k : seed_is v k = true -> generate_seed k = Some v.
Proof.
  unfold seed_is. destruct (generate_seed k); [| discriminate].
  intros E. apply Z.eqb_eq in E. now subst.
Qed.

(** Up to 14 the numeral fits and the seed is exact. *)
Lemma generate_seed_exact k :
  0 <= k <= 14 -> generate_seed k = Some (concat_numeral k).
Proof.
  intros Hk. apply seed_is_spec. fold (seed_exact k).
  apply (forall_interval seed_exact 0 15); [vm_compute; reflexivity | lia].
Qed.

(** From 15 on the numeral has 21 digits or more: [strtoull] clamps. *)
Lemma generate_seed_clamped k :
  15 <= k <= 121 -> generate_seed k = Some U64.ULLONG_MAX.
Proof.
  intros Hk. apply seed_is_spec.
  apply (forall_interval (seed_is U64.ULLONG_MAX) 15 107);
    [vm_compute; reflexivity | lia].
Qed.

Lemma digit_val_range c d : Libc.digit_val c = Some d -> 0 <= d <= 9.
Proof.
  unfold Libc.digit_val.
  destruct (48 <=? Z.of_N (N_of_ascii c)) eqn:Hlo;
    destruct (Z.of_N (N_of_ascii c) <=? 57) eqn:Hhi; cbn; try discriminate.
  intros [= <-]. apply Z.leb_le in Hlo, Hhi. lia.
Qed.

Lemma digits_value_nonneg s acc : 0 <= acc -> 0 <= Libc.digits_value s acc.
Proof.
  revert acc. induction s as [| c s IH]; intros acc Hacc; cbn; [assumption |].
  destruct (Libc.digit_val c) as [d |] eqn:Hd; [| assumption].
  apply digit_val_range in Hd. apply IH. lia.
Qed.

(** ... because there the exact numeral is above [ULLONG_MAX]. *)
Lemma concat_numeral_exceeds k :
  15 <= k <= 121 -> U64.ULLONG_MAX < concat_numeral k.
Proof.
  intros Hk. apply Z.ltb_lt.
  apply (forall_interval (fun j => U64.ULLONG_MAX <? concat_numeral j) 15 107);
    [vm_compute; reflexivity | lia].
Qed.

(** [strtoull] returns a [uint64_t] on every text. *)
Lemma strtoull_range s : U64.in_range (Libc.strtoull s).
Proof.
  unfold Libc.strtoull.
  destruct (match Libc.skip_space s with
            | String "-" t => (true, t)
            | String "+" t => (false, t)
            | _ => (false, Libc.skip_space s)
            end) as [neg s2].
  pose proof (digits_value_nonneg s2 0 (Z.le_refl 0)) as Hv.
  destruct (U64.ULLONG_MAX <? Libc.digits_value s2 0) eqn:Hmax.
  - now cbv.
  - apply Z.ltb_ge in Hmax. destruct neg; [apply wrap_range |].
    unfold U64.in_range. unfold U64.ULLONG_MAX in Hmax. lia.
Qed.

Lemma generate_seed_range k s : generate_seed k = Some s -> U64.in_range s.
Proof.
  unfold generate_seed.
  destruct (seed_loop (Z.to_nat k) 1 "") as [buf |]; [| discriminate].
  intros [= <-]. apply strtoull_range.
Qed.

(** The seed is defined exactly while the text fits the buffer. *)
Lemma generate_seed_defined k :
  k <= 121 -> exists s, generate_seed k = Some s.
Proof.
  intros Hk.
  destruct (Z_le_gt_dec k 0) as [H0 | H0];
    [| destruct (Z_le_gt_dec k 14) as [H14 | H14]].
  - exists 0. now apply seed_of_nonpositive.
  - exists (concat_numeral k). apply generate_seed_exact; lia.
  - exists U64.ULLONG_MAX. apply generate_seed_clamped; lia.
Qed.

Lemma generate_seed_some_bound k s : generate_seed k = Some s -> k <= 121.
Proof.
  intros E. destruct (Z_le_gt_dec k 121) as [H | H]; [assumption |].
  rewrite generate_seed_overrun in E by lia. discriminate.
Qed.

End SeedLoop.

(** ** The derivation pipeline *)

Section Pipeline.

(** Facts about a call that returned: [binary_fusion_tap k0] gave [r]. *)
Section Returned.

Variable k0 : Z.
Variable r : BinaryFusionResult.
Hypothesis Hrun : binary_fusion_tap k0 = Some r.

(** What the returned result is made of. *)
Lemma binary_fusion_tap_inv :
  exists s,
    generate_seed k0 = Some s /\
    k r = k0 /\
    seed_value r = s /\
    tap_state r = U64.add (U64.shl s 3) (U64.wrap k0) /\
    zpe_overflow r =
      (if k0 <? 10 then 0
       else U64.xor (U64.add (U64.shl s 3) (U64.wrap k0)) (U64.mul s 8)).
Proof.
  revert Hrun. unfold binary_fusion_tap.
  destruct (generate_seed k0) as [s |]; [| discriminate].
  intros [= <-]. exists s. cbn. repeat split.
Qed.


Lemma seed_value_range : U64.in_range (seed_value r).
Proof.
  destruct binary_fusion_tap_inv as (s & Hs & _ & -> & _).
  eapply generate_seed_range, Hs.
Qed.

Lemma tap_state_range : U64.in_range (tap_state r).
Proof.
  destruct binary_fusion_tap_inv as (s & _ & _ & _ & -> & _).
  apply wrap_range.
Qed.

End Returned.


(** The reason behind the non-zero overflow word: for any seed, a phase
    offset in [1, 2^64) changes the heartbeat value. *)
Lemma xor_offset_nonzero s d :
  0 < d < U64.modulus ->
  U64.xor (U64.add (U64.shl s 3) (U64.wrap d)) (U64.mul s 8) <> 0.
Proof.
  intros Hd E. apply Z.lxor_eq in E. rewrite <- shl3_mul8 in E.
  rewrite wrap_small in E by (unfold U64.in_range; lia).
  revert E. apply add_offset_moves; [apply wrap_range | exact Hd].
Qed.

(** The same for every [int] offset from 10 up, whatever the seed. *)
Lemma xor_offset_nonzero_int s d :
  10 <= d <= INT_MAX ->
  U64.xor (U64.add (U64.shl s 3) (U64.wrap d)) (U64.mul s 8) <> 0.
Proof.
  intros Hd. apply xor_offset_nonzero.
  unfold INT_MAX in Hd. rewrite modulus_eq. lia.
Qed.






End Pipeline.













(** C4. The reference invocation [k = 11] yields seed 1234567891011, tap
    state 9876543128099 and overflow 59. *)
Theorem scenario_k11 :
  binary_fusion_tap 11 = Some (mkResult 11 1234567891011 9876543128099 59).
Proof. reflexivity. Qed.

(** C5. For every [k <= 0] the loop body never runs, the text is empty and
    [generate_seed k] is 0; for [k = 0] the whole result is zero. *)
Theorem generate_seed_nonpositive (k0 : Z) :
  k0 <= 0 ->
  generate_seed k0 = Some 0 /\
  binary_fusion_tap 0 = Some (mkResult 0 0 0 0).
Proof.
  intros Hk. split; [now apply seed_of_nonpositive | reflexivity].
Qed.

Lemma generate_seed_nonpositive_witness :
  -7 <= 0 /\
  generate_seed (-7) = Some 0 /\
  binary_fusion_tap 0 = Some (mkResult 0 0 0 0).
Proof.
  split; [lia |]. apply (generate_seed_nonpositive (-7)). lia.
Defined.

(** C3, as the code has it. For every [k] with [15 < k <= 121] the numeral
    exceeds [2^64 - 1] and [generate_seed k] is [ULLONG_MAX], the value
    [strtoull] returns for an out-of-range numeral. *)
Theorem generate_seed_saturates (k0 : Z) :
  15 < k0 <= 121 -> generate_seed k0 = Some U64.ULLONG_MAX.
Proof.
  intros Hk. apply generate_seed_clamped. lia.
Qed.

Lemma generate_seed_saturates_witness :
  15 < 16 <= 121 /\ generate_seed 16 = Some U64.ULLONG_MAX.
Proof.
  split; [lia |]. apply (generate_seed_saturates 16). lia.
Defined.

(** C3, as stated, fails at [k = 16]: the code returns [2^64 - 1], the low
    64 bits of the numeral 12345678910111213141516 are another value. *)
Lemma generate_seed_not_truncating :
  15 < 16 /\
  generate_seed 16 = Some 18446744073709551615 /\
  concat_numeral 16 mod U64.modulus = 4807124799523110412 /\
  generate_seed 16 <> Some (concat_numeral 16 mod U64.modulus).
Proof.
  split; [lia |]. split; [reflexivity |]. split; [reflexivity |].
  vm_compute. discriminate.
Qed.

(** ** The binary formatter *)

Section BinaryFormatter.

(** [printf("%llu", n % 2)] writes one character, the bit. *)
Lemma fmt_llu_bit n :
  0 <= n ->
  (U64.rem n 2 = 0 /\ Libc.fmt_llu (U64.rem n 2) = "0") \/
  (U64.rem n 2 = 1 /\ Libc.fmt_llu (U64.rem n 2) = "1").
Proof.
  intros Hn. unfold U64.rem.
  assert (H : n mod 2 = 0 \/ n mod 2 = 1)
    by (pose proof (Z.mod_pos_bound n 2); lia).
  destruct H as [-> | ->]; [left | right]; split; reflexivity.
Qed.

(** Reading a text and then a second one continues from the value of
    the first. *)
Lemma parse_binary_from_app s t acc :
  parse_binary_from (s ++ t) acc =
  match parse_binary_from s acc with
  | Some v => parse_binary_from t v
  | None => None
  end.
Proof.
  revert acc. induction s as [| c s IH]; intros acc; cbn; [reflexivity |].
  destruct (Ascii.eqb c "0"); [apply IH |].
  destruct (Ascii.eqb c "1"); [apply IH | reflexivity].
Qed.

Lemma parse_binary_from_0 v : parse_binary_from "0" v = Some (2 * v).
Proof. reflexivity. Qed.

Lemma parse_binary_from_1 v : parse_binary_from "1" v = Some (2 * v + 1).
Proof. reflexivity. Qed.

Lemma parse_binary_from_bits s acc v :
  parse_binary_from s acc = Some v ->
  Forall is_bit (list_ascii_of_string s).
Proof.
  revert acc. induction s as [| c s IH]; intros acc; cbn; [constructor |].
  destruct (Ascii.eqb_spec c "0") as [-> | _].
  - intros H. constructor; [now left | eapply IH, H].
  - destruct (Ascii.eqb_spec c "1") as [-> | _]; [| discriminate].
    intros H. constructor; [now right | eapply IH, H].
Qed.

(** One more level of nesting never changes a produced text. *)
Lemma print_binary_more depth n out :
  print_binary depth n = Some out -> print_binary (S depth) n = Some out.
Proof.
  revert n out. induction depth as [| d IH]; intros n out; [discriminate |].
  cbn [print_binary]. destruct (1 <? n).
  - destruct (print_binary d (U64.div n 2)) as [pre |] eqn:E; [| discriminate].
    apply IH in E. cbn [print_binary] in E. now rewrite E.
  - trivial.
Qed.

Lemma print_binary_mono d1 d2 n out :
  (d1 <= d2)%nat ->
  print_binary d1 n = Some out -> print_binary d2 n = Some out.
Proof.
  induction 1 as [| d2 _ IH]; [trivial |].
  intros H. apply print_binary_more, IH, H.
Qed.

(** The text written for [n < 2^(d+1)] within nesting [d + 1]: it reads
    back as [n] from any start, and begins with 1 unless [n = 0]. *)
Lemma print_binary_correct d n :
  0 <= n < 2 ^ Z.of_nat (S d) ->
  exists out,
    print_binary (S d) n = Some out /\
    parse_binary_from out 0 = Some n /\
    out <> "" /\
    (0 < n -> exists t, out = String "1" t) /\
    (n = 0 -> out = "0").
Proof.
  revert n. induction d as [| d IH]; intros n Hn.
  - (* n is 0 or 1: no recursive call *)
    change (2 ^ Z.of_nat 1) with 2 in Hn.
    assert (H : n = 0 \/ n = 1) by lia.
    destruct H as [-> | ->]; cbn.
    + exists "0". repeat split; [discriminate | lia].
    + exists "1". repeat split; [discriminate | eauto | discriminate].
  - cbn [print_binary]. destruct (1 <? n) eqn:Hgt.
    + apply Z.ltb_lt in Hgt.
      assert (Hhalf : 0 <= U64.div n 2 < 2 ^ Z.of_nat (S d)).
      { unfold U64.div. split; [apply Z.div_pos; lia |].
        apply Z.div_lt_upper_bound; [lia |].
        rewrite <- Z.pow_succ_r by lia. rewrite <- Nat2Z.inj_succ. lia. }
      destruct (IH _ Hhalf) as (pre & Hrun & Hparse & Hne & Hlead & _).
      cbn [print_binary] in Hrun. rewrite Hrun.
      assert (Hpos : 0 < U64.div n 2)
        by (unfold U64.div; apply Z.div_str_pos; lia).
      destruct (Hlead Hpos) as (t & ->).
      pose proof (Z.div_mod n 2 ltac:(lia)) as Hdm.
      destruct (fmt_llu_bit n ltac:(lia)) as [[Hb ->] | [Hb ->]];
        unfold U64.rem, U64.div in *;
        (eexists; split; [reflexivity |]);
        (split; [rewrite parse_binary_from_app, Hparse,
                   ?parse_binary_from_0, ?parse_binary_from_1; f_equal; lia |]);
        (split; [discriminate |]);
        (split; [intros _; cbn; eauto | lia]).
    + apply Z.ltb_ge in Hgt.
      assert (H : n = 0 \/ n = 1) by lia.
      destruct H as [-> | ->]; cbn.
      * exists "0". repeat split; [discriminate | lia].
      * exists "1". repeat split; [discriminate | eauto | discriminate].
Qed.

End BinaryFormatter.

(** C6. Formatter round trip: for every unsigned 64-bit [n], [print_binary]
    writes a text that, read as a base-2 numeral most significant digit
    first, is [n]; the text has only the characters 0 and 1, starts with 1
    when [n > 0] and is exactly "0" when [n = 0]. *)
Theorem print_binary_round_trip (n : Z) :
  U64.in_range n ->
  exists out,
    print_binary 64 n = Some out /\
    parse_binary out = Some n /\
    Forall is_bit (list_ascii_of_string out) /\
    (0 < n -> exists t, out = String "1" t) /\
    (n = 0 -> out = "0").
Proof.
  intros Hn.
  destruct (print_binary_correct 63 n Hn) as (out & Hrun & Hparse & Hne & Hl & Hz).
  exists out. split; [exact Hrun |].
  assert (Hp : parse_binary out = Some n).
  { destruct out; [congruence | exact Hparse]. }
  split; [exact Hp |].
  split; [eapply parse_binary_from_bits, Hparse |].
  split; assumption.
Qed.

Lemma print_binary_round_trip_witness :
  U64.in_range 59 /\
  exists out,
    print_binary 64 59 = Some out /\
    parse_binary out = Some 59 /\
    Forall is_bit (list_ascii_of_string out) /\
    (0 < 59 -> exists t, out = String "1" t) /\
    (59 = 0 -> out = "0").
Proof.
  split; [u64_range |].
  apply (print_binary_round_trip 59). u64_range.
Defined.

(** C7. Termination: for every unsigned 64-bit [n], the largest and the
    smallest included, [print_binary] returns within 64 nested calls, with
    the same text under any larger bound. *)
Theorem print_binary_terminates (n : Z) :
  U64.in_range n ->
  exists out,
    forall depth, (64 <= depth)%nat -> print_binary depth n = Some out.
Proof.
  intros Hn.
  destruct (print_binary_correct 63 n Hn) as (out & Hrun & _).
  exists out. intros depth Hd. eapply print_binary_mono; eassumption.
Qed.

Lemma print_binary_terminates_witness :
  U64.in_range U64.ULLONG_MAX /\
  exists out,
    forall depth,
      (64 <= depth)%nat -> print_binary depth U64.ULLONG_MAX = Some out.
Proof.
  split; [u64_range |].
  apply (print_binary_terminates U64.ULLONG_MAX). u64_range.
Defined.

(** C8. The report of [main]: four lines, in the order K Parameter, Seed
    Value, Tap State, ZPE Overflow, each field in its format, for the
    result of [binary_fusion_tap 11]. *)
Theorem main_report :
  exists r tap_bin zpe_bin,
    binary_fusion_tap 11 = Some r /\
    print_binary 64 (tap_state r) = Some tap_bin /\
    print_binary 64 (zpe_overflow r) = Some zpe_bin /\
    main =
      Some (unlines (report_lines (Libc.fmt_d (k r))
                                  (Libc.fmt_llu (seed_value r))
                                  tap_bin zpe_bin
                                  (Libc.fmt_llu (zpe_overflow r)))) /\
    unlines (report_lines (Libc.fmt_d (k r)) (Libc.fmt_llu (seed_value r))
                          tap_bin zpe_bin (Libc.fmt_llu (zpe_overflow r))) =
      "K Parameter: 11" ++ newline ++
      "Seed Value: 1234567891011" ++ newline ++
      "Tap State: 0b10001111101110001111110110000100001000100011" ++ newline ++
      "ZPE Overflow: 0b111011 (decimal: 59)" ++ newline.
Proof.
  exists (mkResult 11 1234567891011 9876543128099 59).
  exists "10001111101110001111110110000100001000100011", "111011".
  repeat split.
Qed.

(** * Further properties of the code *)

(** ** Strings *)

Section StringFacts.

Lemma string_length_app (s t : string) :
  String.length (s ++ t) = (String.length s + String.length t)%nat.
Proof. induction s as [| c s IH]; cbn; [reflexivity | now rewrite IH]. Qed.

Lemma string_app_assoc (s t u : string) : (s ++ t) ++ u = s ++ (t ++ u).
Proof. induction s as [| c s IH]; cbn; [reflexivity | now rewrite IH]. Qed.

Lemma string_app_nil_r (s : string) : s ++ "" = s.
Proof. induction s as [| c s IH]; cbn; [reflexivity | now rewrite IH]. Qed.

End StringFacts.

(** ** The seed text and its buffer *)

Section SeedText.

Lemma strcat_some size dst src out :
  Libc.strcat size dst src = Some out <->
  out = dst ++ src /\ (String.length dst + String.length src + 1 <= size)%nat.
Proof.
  unfold Libc.strcat.
  destruct (Nat.leb_spec (String.length dst + String.length src + 1) size).
  - split; [intros [= <-]; now split | intros [-> _]; reflexivity].
  - split; [discriminate | intros [_ H']; lia].
Qed.

(** The loop leaves the texts of the counters behind what the buffer held,
    and every append fitted. *)
Lemma seed_loop_some n i buf out :
  seed_loop n i buf = Some out ->
  out = buf ++ seed_text n i /\
  (0 < n -> String.length out < 256)%nat.
Proof.
  revert i buf. induction n as [| n IH]; intros i buf; cbn [seed_loop seed_text].
  - intros [= <-]. rewrite string_app_nil_r. split; [reflexivity | lia].
  - destruct (Libc.strcat 256 buf (Libc.fmt_d i)) as [buf' |] eqn:Hcat;
      [| discriminate].
    apply strcat_some in Hcat as [-> Hfit]. intros Hrun.
    destruct (IH _ _ Hrun) as [-> Hlen].
    rewrite string_app_assoc. split; [reflexivity |]. intros _.
    destruct n as [| n'].
    + cbn [seed_text]. rewrite string_app_nil_r, string_length_app. lia.
    + rewrite <- string_app_assoc. apply Hlen. lia.
Qed.

(** Conversely the loop completes when the final text fits. *)
Lemma seed_loop_fits n i buf :
  (String.length (buf ++ seed_text n i) < 256)%nat ->
  seed_loop n i buf = Some (buf ++ seed_text n i).
Proof.
  revert i buf. induction n as [| n IH]; intros i buf; cbn [seed_loop seed_text].
  - now rewrite string_app_nil_r.
  - intros Hlen. rewrite <- string_app_assoc in *.
    assert (Hcat : Libc.strcat 256 buf (Libc.fmt_d i) = Some (buf ++ Libc.fmt_d i)).
    { apply strcat_some. split; [reflexivity |].
      rewrite !string_length_app in Hlen. lia. }
    rewrite Hcat. now apply IH.
Qed.

End SeedText.

(** X1. [generate_seed k] is [strtoull] of the text "12...k" when that text
    has at most 255 characters (it then fits [char seed_str[256]] with its
    terminator), and is undefined otherwise. *)
Theorem generate_seed_text (k0 : Z) :
  generate_seed k0 =
  if (String.length (seed_text (Z.to_nat k0) 1) <=? 255)%nat
  then Some (Libc.strtoull (seed_text (Z.to_nat k0) 1))
  else None.
Proof.
  unfold generate_seed.
  destruct (Nat.leb_spec (String.length (seed_text (Z.to_nat k0) 1)) 255) as [H | H].
  - rewrite (seed_loop_fits (Z.to_nat k0) 1 "") by (cbn [append]; lia).
    reflexivity.
  - destruct (seed_loop (Z.to_nat k0) 1 "") as [out |] eqn:E; [| reflexivity].
    apply seed_loop_some in E as [-> Hlen]. cbn [append] in Hlen.
    destruct (Z.to_nat k0) as [| n]; [cbn in H; lia |].
    specialize (Hlen ltac:(lia)). lia.
Qed.

(** X2. [generate_seed k] returns a value exactly for [k <= 121]: the text
    of 1..121 fills the 255 usable characters of [seed_str], and from
    [k = 122] on [strcat] writes past the array. *)
Theorem generate_seed_defined_iff (k0 : Z) :
  (exists s, generate_seed k0 = Some s) <-> k0 <= 121.
Proof.
  split.
  - intros [s Hs]. eapply generate_seed_some_bound, Hs.
  - apply generate_seed_defined.
Qed.

(** X3. The seed is the exact value of the numeral "12...k" if and only if
    [k <= 14]: the numeral of 1..15 has 21 digits and is above [2^64 - 1],
    although the source comments give 15 as the largest safe [k]. *)
Theorem generate_seed_exact_iff (k0 : Z) :
  generate_seed k0 = Some (concat_numeral k0) <-> k0 <= 14.
Proof.
  split.
  - intros E. destruct (Z_le_gt_dec k0 14) as [H | H]; [assumption | exfalso].
    pose proof (generate_seed_some_bound _ _ E) as Hmax.
    rewrite generate_seed_clamped in E by lia. injection E as E.
    pose proof (concat_numeral_exceeds k0 ltac:(lia)). lia.
  - intros Hk. destruct (Z_le_gt_dec k0 0) as [H0 | H0].
    + rewrite seed_of_nonpositive by assumption.
      unfold concat_numeral. now replace (Z.to_nat k0) with O by lia.
    + apply generate_seed_exact. lia.
Qed.

(** X4. Within [0 <= k <= 14] nothing wraps: the result holds the exact
    numeral as seed and [8 * seed + k], as integers, as tap state. *)
Theorem binary_fusion_tap_exact (k0 : Z) :
  0 <= k0 <= 14 ->
  exists r,
    binary_fusion_tap k0 = Some r /\
    seed_value r = concat_numeral k0 /\
    tap_state r = 8 * concat_numeral k0 + k0.
Proof.
  intros Hk.
  assert (Hsmall : (8 * concat_numeral k0 + k0 <? U64.modulus) = true).
  { pose (fits := fun j => 8 * concat_numeral j + j <? U64.modulus).
    apply (forall_interval fits 0 15); [vm_compute; reflexivity | lia]. }
  apply Z.ltb_lt in Hsmall.
  assert (Hpos : (0 <=? concat_numeral k0) = true).
  { pose (nonneg := fun j => 0 <=? concat_numeral j).
    apply (forall_interval nonneg 0 15); [vm_compute; reflexivity | lia]. }
  apply Z.leb_le in Hpos.
  unfold binary_fusion_tap. rewrite generate_seed_exact by assumption.
  eexists. split; [reflexivity |]. cbn [seed_value tap_state].
  split; [reflexivity |].
  unfold U64.shl. rewrite add_wrap_wrap, Z.shiftl_mul_pow2 by lia.
  change (2 ^ 3) with 8. rewrite wrap_small by (unfold U64.in_range; lia). lia.
Qed.

Lemma binary_fusion_tap_exact_witness :
  0 <= 14 <= 14 /\
  exists r,
    binary_fusion_tap 14 = Some r /\
    seed_value r = concat_numeral 14 /\
    tap_state r = 8 * concat_numeral 14 + 14.
Proof.
  split; [lia |]. apply (binary_fusion_tap_exact 14). lia.
Defined.

(** X5. A negative [int k] gives seed 0, overflow 0 and, by the conversion
    of [k] to [uint64_t], the tap state [2^64 + k]. *)
Theorem binary_fusion_tap_negative (k0 : Z) :
  INT_MIN <= k0 < 0 ->
  binary_fusion_tap k0 = Some (mkResult k0 0 (U64.modulus + k0) 0).
Proof.
  intros Hk. unfold INT_MIN in Hk.
  unfold binary_fusion_tap. rewrite seed_of_nonpositive by lia.
  replace (k0 <? 10) with true by (symmetry; apply Z.ltb_lt; lia).
  f_equal. f_equal.
  change (U64.shl 0 3) with (U64.wrap 0). rewrite add_wrap_wrap.
  unfold U64.wrap. rewrite modulus_eq in *.
  replace (0 + k0) with ((18446744073709551616 + k0)
                         + (-1) * 18446744073709551616) by lia.
  rewrite Z_mod_plus_full. apply Z.mod_small. lia.
Qed.

Lemma binary_fusion_tap_negative_witness :
  INT_MIN <= -1 < 0 /\
  binary_fusion_tap (-1) = Some (mkResult (-1) 0 (U64.modulus + -1) 0).
Proof.
  split; [unfold INT_MIN; lia |].
  apply (binary_fusion_tap_negative (-1)). unfold INT_MIN. lia.
Defined.

(** X6. For [15 <= k <= 121] the clamped seed [2^64 - 1] makes the heartbeat
    value [2^64 - 8], and the tap state wraps around to [k - 8]: it no
    longer depends on the digits of the numeral. *)
Theorem binary_fusion_tap_saturated (k0 : Z) :
  15 <= k0 <= 121 ->
  exists r,
    binary_fusion_tap k0 = Some r /\
    seed_value r = U64.ULLONG_MAX /\
    tap_state r = k0 - 8 /\
    zpe_overflow r = Z.lxor (k0 - 8) (U64.modulus - 8).
Proof.
  intros Hk. unfold binary_fusion_tap.
  rewrite generate_seed_clamped by assumption.
  replace (k0 <? 10) with false by (symmetry; apply Z.ltb_ge; lia).
  eexists. split; [reflexivity |]. cbn [seed_value tap_state zpe_overflow].
  change (U64.shl U64.ULLONG_MAX 3) with (U64.modulus - 8).
  change (U64.mul U64.ULLONG_MAX 8) with (U64.modulus - 8).
  assert (E : U64.add (U64.modulus - 8) (U64.wrap k0) = k0 - 8).
  { rewrite wrap_small by u64_range.
    unfold U64.add, U64.wrap. rewrite modulus_eq.
    replace (18446744073709551616 - 8 + k0)
      with ((k0 - 8) + 1 * 18446744073709551616) by lia.
    rewrite Z_mod_plus_full. apply Z.mod_small. lia. }
  rewrite E. repeat split.
Qed.

Lemma binary_fusion_tap_saturated_witness :
  15 <= 15 <= 121 /\
  exists r,
    binary_fusion_tap 15 = Some r /\
    seed_value r = U64.ULLONG_MAX /\
    tap_state r = 15 - 8 /\
    zpe_overflow r = Z.lxor (15 - 8) (U64.modulus - 8).
Proof.
  split; [lia |]. apply (binary_fusion_tap_saturated 15). lia.
Defined.

(** ** The overflow word and the low bits *)

Section LowBits.

(** Exclusive or commutes with taking the low [n] bits. *)
Lemma lxor_mod_pow2 a b n :
  0 <= n -> Z.lxor a b mod 2 ^ n = Z.lxor (a mod 2 ^ n) (b mod 2 ^ n).
Proof.
  intros Hn. rewrite <- !Z.land_ones by assumption.
  apply Z.bits_inj'. intros i _.
  rewrite !Z.land_spec, !Z.lxor_spec, !Z.land_spec.
  destruct (Z.testbit a i), (Z.testbit b i), (Z.testbit (Z.ones n) i);
    reflexivity.
Qed.

Lemma heartbeat_mod8 s : U64.mul s 8 mod 8 = 0.
Proof. unfold U64.mul. rewrite wrap_mod8. apply Z_mod_mult. Qed.

Lemma tap_mod8 s d : U64.add (U64.shl s 3) (U64.wrap d) mod 8 = d mod 8.
Proof.
  rewrite shl3_mul8. unfold U64.mul. rewrite add_wrap_wrap, wrap_mod8.
  rewrite Z.add_comm. apply Z_mod_plus_full.
Qed.

End LowBits.

(** X7. In the active regime the low three bits of the overflow word are
    those of [k]: whenever [binary_fusion_tap k] returns a result for
    [k >= 10], [zpe_overflow mod 8 = k mod 8]. *)
Theorem zpe_overflow_low_bits (k0 : Z) (r : BinaryFusionResult) :
  10 <= k0 -> binary_fusion_tap k0 = Some r -> zpe_overflow r mod 8 = k0 mod 8.
Proof.
  intros Hk Hr.
  destruct (binary_fusion_tap_inv _ _ Hr) as (s & _ & _ & _ & _ & ->).
  apply Z.ltb_ge in Hk. rewrite Hk. unfold U64.xor.
  change 8 with (2 ^ 3) at 2. rewrite lxor_mod_pow2 by lia.
  change (2 ^ 3) with 8. rewrite heartbeat_mod8, tap_mod8.
  apply Z.lxor_0_r.
Qed.

Lemma zpe_overflow_low_bits_witness :
  10 <= 11 /\
  binary_fusion_tap 11 = Some (mkResult 11 1234567891011 9876543128099 59) /\
  59 mod 8 = 11 mod 8.
Proof.
  split; [lia |]. split; [reflexivity |].
  apply (zpe_overflow_low_bits 11
           (mkResult 11 1234567891011 9876543128099 59)); [lia | reflexivity].
Defined.

(** ** More on the binary formatter *)

Section BinaryFormatterMore.

Lemma log2_half n : 1 < n -> Z.log2 (n / 2) = Z.log2 n - 1.
Proof.
  intros Hn.
  assert (H1 : 1 <= Z.log2 n).
  { apply Z.log2_le_pow2; [lia | change (2 ^ 1) with 2; lia]. }
  change 2 with (2 ^ 1). rewrite <- Z.shiftr_div_pow2 by lia.
  rewrite Z.log2_shiftr by lia. lia.
Qed.

(** Every text written has one character per binary digit of [n]. *)
Lemma print_binary_length depth n out :
  0 <= n ->
  print_binary depth n = Some out ->
  Z.of_nat (String.length out) = Z.log2 n + 1.
Proof.
  revert n out. induction depth as [| d IH]; intros n out Hn; [discriminate |].
  cbn [print_binary]. destruct (1 <? n) eqn:Hgt.
  - apply Z.ltb_lt in Hgt.
    destruct (print_binary d (U64.div n 2)) as [pre |] eqn:Hpre; [| discriminate].
    intros [= <-]. unfold U64.div in Hpre.
    apply IH in Hpre; [| apply Z.div_pos; lia].
    rewrite log2_half in Hpre by assumption.
    rewrite string_length_app, Nat2Z.inj_add, Hpre.
    destruct (fmt_llu_bit n Hn) as [[_ ->] | [_ ->]]; cbn; lia.
  - apply Z.ltb_ge in Hgt. intros [= <-].
    assert (H : n = 0 \/ n = 1) by lia.
    destruct H as [-> | ->]; reflexivity.
Qed.

(** A nesting bound of [d] calls is too small exactly from [2^d] on. *)
Lemma print_binary_none depth n :
  0 <= n ->
  print_binary depth n = None <-> (depth = 0%nat \/ 2 ^ Z.of_nat depth <= n).
Proof.
  revert n. induction depth as [| d IH]; intros n Hn.
  - cbn. split; [now left | reflexivity].
  - cbn [print_binary]. rewrite Nat2Z.inj_succ, Z.pow_succ_r by lia.
    destruct (1 <? n) eqn:Hgt.
    + apply Z.ltb_lt in Hgt.
      assert (Hhalf : 0 <= U64.div n 2) by (apply Z.div_pos; lia).
      specialize (IH _ Hhalf).
      assert (Hdiv : 2 ^ Z.of_nat d <= U64.div n 2 <-> 2 * 2 ^ Z.of_nat d <= n).
      { unfold U64.div. pose proof (Z.div_mod n 2 ltac:(lia)).
        pose proof (Z.mod_pos_bound n 2 ltac:(lia)). lia. }
      destruct (print_binary d (U64.div n 2)) as [pre |].
      * split; [discriminate |]. intros [H | H]; [discriminate |].
        enough (@Some string pre = None) by discriminate.
        apply IH. right. now apply Hdiv.
      * split; [| reflexivity]. intros _. right.
        destruct (proj1 IH eq_refl) as [-> | H]; [cbn; lia | now apply Hdiv].
    + apply Z.ltb_ge in Hgt. split; [discriminate |].
      intros [H | H]; [discriminate |].
      pose proof (Z.pow_pos_nonneg 2 (Z.of_nat d) ltac:(lia) ltac:(lia)). lia.
Qed.

End BinaryFormatterMore.

(** X8. For every unsigned 64-bit [n] the text of [print_binary] has
    [log2 n + 1] characters (one for [n = 0]), so never more than 64. *)
Theorem print_binary_width (n : Z) :
  U64.in_range n ->
  exists out,
    print_binary 64 n = Some out /\
    Z.of_nat (String.length out) = Z.log2 n + 1 /\
    (1 <= String.length out <= 64)%nat.
Proof.
  intros Hn.
  destruct (print_binary_correct 63 n Hn) as (out & Hrun & _).
  exists out. split; [exact Hrun |].
  pose proof (print_binary_length _ _ _ (proj1 Hn) Hrun) as Hlen.
  split; [exact Hlen |].
  pose proof (Z.log2_nonneg n) as H0.
  assert (Z.log2 n < 64).
  { destruct (Z.eq_dec n 0) as [-> | Hnz]; [reflexivity |].
    apply Z.log2_lt_pow2; [| apply Hn]. destruct Hn. lia. }
  lia.
Qed.

Lemma print_binary_width_witness :
  U64.in_range 9876543128099 /\
  exists out,
    print_binary 64 9876543128099 = Some out /\
    Z.of_nat (String.length out) = Z.log2 9876543128099 + 1 /\
    (1 <= String.length out <= 64)%nat.
Proof.
  split; [u64_range |]. apply (print_binary_width 9876543128099). u64_range.
Defined.

(** X9. The recursion of [print_binary] nests as many calls as [n] has
    binary digits: for [n >= 0], a bound of [d >= 1] nested calls is enough
    if and only if [n < 2^d]. *)
Theorem print_binary_depth (d : nat) (n : Z) :
  0 <= n -> (1 <= d)%nat ->
  (exists out, print_binary d n = Some out) <-> n < 2 ^ Z.of_nat d.
Proof.
  intros Hn Hd. pose proof (print_binary_none d n Hn) as Hnone.
  split.
  - intros [out Hout]. destruct (Z_lt_ge_dec n (2 ^ Z.of_nat d)) as [H | H];
      [assumption |].
    rewrite (proj2 Hnone) in Hout by (right; lia). discriminate.
  - intros Hlt. destruct (print_binary d n) as [out |]; [eauto |].
    destruct (proj1 Hnone eq_refl); lia.
Qed.

Lemma print_binary_depth_witness :
  0 <= 2 ^ 63 /\ (1 <= 63)%nat /\
  ((exists out, print_binary 63 (2 ^ 63) = Some out) <->
   2 ^ 63 < 2 ^ Z.of_nat 63).
Proof.
  split; [lia |]. split; [lia |].
  apply (print_binary_depth 63 (2 ^ 63)); lia.
Defined.

(** X10. Distinct unsigned 64-bit values are written as distinct texts. *)
Theorem print_binary_injective (n1 n2 : Z) :
  U64.in_range n1 -> U64.in_range n2 ->
  print_binary 64 n1 = print_binary 64 n2 -> n1 = n2.
Proof.
  intros H1 H2 E.
  destruct (print_binary_correct 63 n1 H1) as (o1 & R1 & P1 & _).
  destruct (print_binary_correct 63 n2 H2) as (o2 & R2 & P2 & _).
  rewrite R1, R2 in E. injection E as ->. congruence.
Qed.

Lemma print_binary_injective_witness :
  U64.in_range 59 /\ U64.in_range (118 / 2) /\
  print_binary 64 59 = print_binary 64 (118 / 2) /\ 59 = 118 / 2.
Proof.
  split; [u64_range |].
  split; [vm_compute; split; [discriminate | reflexivity] |].
  split; [reflexivity |].
  apply (print_binary_injective 59 (118 / 2));
    [u64_range | vm_compute; split; [discriminate | reflexivity] | reflexivity].
Defined.

(** * The key exchange demonstration, [oqs/kyber_test.c] *)

(** ** [print_hex] *)

Section PrintHex.

Import KyberTest.

Lemma hex_of_bytes_cons b bs :
  hex_of_bytes (b :: bs) = fmt_02x b ++ hex_of_bytes bs.
Proof.
  unfold hex_of_bytes. cbn [map String.concat].
  destruct (map fmt_02x bs); [now rewrite string_app_nil_r | reflexivity].
Qed.

Lemma hex_of_bytes_length bs :
  String.length (hex_of_bytes bs) = (2 * List.length bs)%nat.
Proof.
  induction bs as [| b bs IH]; [reflexivity |].
  rewrite hex_of_bytes_cons, string_length_app, IH.
  change (String.length (fmt_02x b)) with 2%nat. cbn [List.length]. lia.
Qed.

Lemma unhex_fmt_02x b t :
  unhex (fmt_02x b ++ t) =
  match unhex t with Some bs => Some (b :: bs) | None => None end.
Proof. destruct b; cbn; destruct (unhex t); reflexivity. Qed.

(** Reading back the hexadecimal text of some bytes gives the bytes. *)
Lemma unhex_hex_of_bytes bs : unhex (hex_of_bytes bs) = Some bs.
Proof.
  induction bs as [| b bs IH]; [reflexivity |].
  now rewrite hex_of_bytes_cons, unhex_fmt_02x, IH.
Qed.

Lemma skipn_nth_error (data : list Byte.byte) i b :
  nth_error data i = Some b -> skipn i data = b :: skipn (S i) data.
Proof.
  revert data. induction i as [| i IH]; intros [| x data]; cbn; try discriminate.
  - now intros [= ->].
  - intros H. now apply IH.
Qed.

(** The loop writes the bytes at [i .. i + n - 1], when they exist. *)
Lemma hex_loop_some n i data :
  (i + n <= List.length data)%nat ->
  hex_loop n i data = Some (hex_of_bytes (firstn n (skipn i data))).
Proof.
  revert i. induction n as [| n IH]; intros i Hlen; [reflexivity |].
  cbn [hex_loop].
  destruct (nth_error data i) as [b |] eqn:Hb.
  - rewrite IH by lia. rewrite (skipn_nth_error _ _ _ Hb).
    cbn [firstn]. now rewrite hex_of_bytes_cons.
  - apply nth_error_None in Hb. lia.
Qed.

Lemma hex_loop_none n i data :
  (i <= List.length data < i + n)%nat -> hex_loop n i data = None.
Proof.
  revert i. induction n as [| n IH]; intros i Hlen; [lia |].
  cbn [hex_loop]. destruct (nth_error data i) as [b |] eqn:Hb; [| reflexivity].
  assert (Hi : (i < List.length data)%nat)
    by (apply nth_error_Some; congruence).
  now rewrite IH by lia.
Qed.

Lemma print_hex_some label data len :
  (shown len <= List.length data)%nat ->
  print_hex label data len =
  Some (label ++ ": " ++ hex_of_bytes (firstn (shown len) data)
        ++ (if 32 <? len then "... (" ++ fmt_zu len ++ " bytes total)" else "")
        ++ newline).
Proof.
  intros H. unfold print_hex. fold (shown len).
  now rewrite hex_loop_some by lia.
Qed.

Lemma print_hex_none label data len :
  (List.length data < shown len)%nat -> print_hex label data len = None.
Proof.
  intros H. unfold print_hex. fold (shown len).
  now rewrite hex_loop_none by lia.
Qed.

End PrintHex.

(** X11. [print_hex] reads [min len 32] bytes of [data] and no more: it is
    defined exactly when the array holds that many, whatever [len] says
    beyond 32. *)
Theorem print_hex_bounds (label : string) (data : list Byte.byte) (len : Z) :
  0 <= len ->
  (exists out, KyberTest.print_hex label data len = Some out) <->
  Z.min len 32 <= Z.of_nat (List.length data).
Proof.
  intros Hlen.
  assert (Hshown : KyberTest.shown len = Z.to_nat (Z.min len 32)).
  { unfold KyberTest.shown. destruct (Z.ltb_spec 32 len); f_equal; lia. }
  destruct (Nat.le_gt_cases (KyberTest.shown len) (List.length data)) as [H | H].
  - rewrite print_hex_some by assumption. split; [intros _; lia | eauto].
  - rewrite print_hex_none by assumption.
    split; [intros [out [=]] | intros; lia].
Qed.

Lemma print_hex_bounds_witness :
  0 <= 1000 /\
  ((exists out,
       KyberTest.print_hex "Key" (repeat Byte.x5a 32) 1000 = Some out) <->
   Z.min 1000 32 <= Z.of_nat (List.length (repeat Byte.x5a 32))).
Proof.
  split; [lia |].
  apply (print_hex_bounds "Key" (repeat Byte.x5a 32) 1000). lia.
Defined.

(** X12. The line [print_hex] writes is the label, a colon and a space, two
    hexadecimal digits for each of the first [min len 32] bytes, the note
    "... (len bytes total)" when [len > 32], and a newline; the digits
    read back as those bytes. *)
Theorem print_hex_round_trip
  (label : string) (data : list Byte.byte) (len : Z) (out : string) :
  KyberTest.print_hex label data len = Some out ->
  exists hex,
    out = label ++ ": " ++ hex
          ++ (if 32 <? len
              then "... (" ++ KyberTest.fmt_zu len ++ " bytes total)"
              else "")
          ++ newline /\
    KyberTest.unhex hex = Some (firstn (Z.to_nat (Z.min len 32)) data) /\
    String.length hex = (2 * Z.to_nat (Z.min len 32))%nat.
Proof.
  intros Hrun.
  assert (Hshown : KyberTest.shown len = Z.to_nat (Z.min len 32)).
  { unfold KyberTest.shown. destruct (Z.ltb_spec 32 len); f_equal; lia. }
  destruct (Nat.le_gt_cases (KyberTest.shown len) (List.length data)) as [H | H].
  - rewrite print_hex_some in Hrun by assumption. injection Hrun as <-.
    rewrite Hshown in *. eexists. split; [reflexivity |].
    split; [apply unhex_hex_of_bytes |].
    rewrite hex_of_bytes_length, length_firstn. lia.
  - rewrite print_hex_none in Hrun by assumption. discriminate.
Qed.

Lemma print_hex_round_trip_witness :
  KyberTest.print_hex "Key" [Byte.x00; Byte.x9f; Byte.xff] 3
  = Some ("Key: 009fff" ++ newline) /\
  exists hex,
    "Key: 009fff" ++ newline
    = "Key" ++ ": " ++ hex
      ++ (if 32 <? 3
          then "... (" ++ KyberTest.fmt_zu 3 ++ " bytes total)"
          else "")
      ++ newline /\
    KyberTest.unhex hex
    = Some (firstn (Z.to_nat (Z.min 3 32)) [Byte.x00; Byte.x9f; Byte.xff]) /\
    String.length hex = (2 * Z.to_nat (Z.min 3 32))%nat.
Proof.
  split; [reflexivity |].
  apply (print_hex_round_trip "Key" [Byte.x00; Byte.x9f; Byte.xff] 3).
  reflexivity.
Defined.

(** X13. Beyond 32 bytes only the length shows: for [len > 32], two arrays
    with the same first 32 bytes are written as the same line. *)
Theorem print_hex_truncates
  (label : string) (data1 data2 : list Byte.byte) (len : Z) :
  32 < len ->
  firstn 32 data1 = firstn 32 data2 ->
  KyberTest.print_hex label data1 len = KyberTest.print_hex label data2 len.
Proof.
  intros Hlen Hsame.
  assert (Hshown : KyberTest.shown len = 32%nat).
  { unfold KyberTest.shown. now replace (32 <? len) with true
      by (symmetry; apply Z.ltb_lt; lia). }
  pose proof (f_equal (@List.length _) Hsame) as Hl.
  rewrite !length_firstn in Hl.
  destruct (Nat.le_gt_cases 32 (List.length data1)) as [H | H].
  - rewrite !print_hex_some by lia. now rewrite Hshown, Hsame.
  - rewrite !print_hex_none by lia. reflexivity.
Qed.

Lemma print_hex_truncates_witness :
  32 < 40 /\
  firstn 32 (repeat Byte.x11 32 ++ repeat Byte.x22 8)%list
  = firstn 32 (repeat Byte.x11 32 ++ repeat Byte.x33 8)%list /\
  KyberTest.print_hex "Key" (repeat Byte.x11 32 ++ repeat Byte.x22 8)%list 40
  = KyberTest.print_hex "Key" (repeat Byte.x11 32 ++ repeat Byte.x33 8)%list 40.
Proof.
  split; [lia |]. split; [reflexivity |].
  apply (print_hex_truncates "Key"); [lia | reflexivity].
Defined.

(** ** [main]: the course of the exchange *)

Section KyberMain.

Import KyberTest.

Lemma bytes_eqb_eq a b : bytes_eqb a b = true <-> a = b.
Proof.
  revert b. induction a as [| x a IH]; intros [| y b]; cbn;
    try (split; [discriminate | congruence]); [tauto |].
  rewrite andb_true_iff, IH. split.
  - intros [Hxy ->]. apply Byte.byte_dec_bl in Hxy. now subst.
  - intros [= -> ->]. split; [now apply Byte.byte_dec_lb | reflexivity].
Qed.

Lemma memcmp_is_zero_some a b n same :
  memcmp_is_zero a b n = Some same ->
  (same = true <-> firstn (Z.to_nat n) a = firstn (Z.to_nat n) b).
Proof.
  unfold memcmp_is_zero.
  destruct ((n <=? Z.of_nat (List.length a)) && (n <=? Z.of_nat (List.length b)));
    [| discriminate].
  intros [= <-]. apply bytes_eqb_eq.
Qed.

Lemma no_malloc_null w :
  malloc_null w 0 || malloc_null w 1 || malloc_null w 2
  || malloc_null w 3 || malloc_null w 4 = false <->
  (forall i, (i < 5)%nat -> malloc_null w i = false).
Proof.
  rewrite !orb_false_iff. split.
  - intros [[[[H0 H1] H2] H3] H4] i Hi.
    destruct i as [| [| [| [| [| i]]]]]; try assumption. lia.
  - intros H. repeat split; apply H; lia.
Qed.

(** Takes the next step of [main] in a goal [main w = Some o -> _]. *)
Ltac main_step :=
  match goal with
  | |- context [OQS_KEM_new ?w] =>
      let E := fresh "Hnew" in destruct (OQS_KEM_new w) as [?kem |] eqn:E
  | |- context [orb ?first (malloc_null ?w 4)] =>
      let E := fresh "Hmalloc" in
      destruct (orb first (malloc_null w 4)) eqn:E
  | |- context [OQS_KEM_keypair ?w] =>
      let E := fresh "Hkeypair" in
      destruct (OQS_KEM_keypair w) as [[[] ?pk] ?sk] eqn:E
  | |- context [print_hex ?l ?d ?n] =>
      let E := fresh "Hhex" in
      destruct (print_hex l d n) as [?hex |] eqn:E; [| discriminate]
  | |- context [OQS_KEM_encaps ?w ?pk] =>
      let E := fresh "Hencaps" in
      destruct (OQS_KEM_encaps w pk) as [[[] ?ct] ?ssb] eqn:E
  | |- context [OQS_KEM_decaps ?w ?ct ?sk] =>
      let E := fresh "Hdecaps" in
      destruct (OQS_KEM_decaps w ct sk) as [[] ?ssa] eqn:E
  | |- context [memcmp_is_zero ?a ?b ?n] =>
      let E := fresh "Hcmp" in
      destruct (memcmp_is_zero a b n) as [[] |] eqn:E; [| | discriminate]
  end;
  cbv beta iota delta [is_success negb cleanup].

Ltac failed_run :=
  intros [= <-]; cbn [status stderr]; split;
  [ try discriminate; intros H; vm_compute in H; discriminate
  | try discriminate;
    intros (? & ? & ? & ? & ? & ? & ? & Hno & ? & ? & ? & ?);
    try (apply (proj2 (no_malloc_null _)) in Hno); congruence ].

Lemma shown_le (data : list Byte.byte) len :
  Z.of_nat (List.length data) = len -> (shown len <= List.length data)%nat.
Proof. intros <-. unfold shown. destruct (Z.ltb_spec 32 (Z.of_nat (List.length data))); lia. Qed.

Lemma memcmp_is_zero_sized a b n :
  Z.of_nat (List.length a) = n -> Z.of_nat (List.length b) = n ->
  exists same, memcmp_is_zero a b n = Some same.
Proof.
  intros Ha Hb. unfold memcmp_is_zero. rewrite Ha, Hb, Z.leb_refl. cbn. eauto.
Qed.

(** X14. The exit status of [main] is [EXIT_SUCCESS] exactly when the
    method table was obtained, no allocation failed, key generation,
    encapsulation and decapsulation all returned [OQS_SUCCESS], and the two
    shared secrets agree on their [length_shared_secret] bytes. *)
Theorem kyber_main_status (w : World) (o : Outcome) :
  main w = Some o -> (status o = EXIT_SUCCESS <-> exchange_ok w).
Proof.
  unfold main, exchange_ok. cbv zeta.
  main_step; [| failed_run].
  main_step; [failed_run |].
  main_step; [failed_run | | failed_run].
  do 2 main_step.
  main_step; [failed_run | | failed_run].
  do 2 main_step.
  main_step; [failed_run | | failed_run].
  main_step.
  pose proof (proj1 (no_malloc_null w) Hmalloc) as Hno.
  main_step; intros [= <-]; cbn [status].
  - split; [intros _ | reflexivity].
    exists kem, pk, sk, ct, ssb, ssa. repeat split; try assumption.
    now apply (memcmp_is_zero_some _ _ _ _ Hcmp).
  - split; [discriminate |].
    intros (kem0 & pk0 & sk0 & ct0 & ssb0 & ssa0 & E1 & _ & E3 & E4 & E5 & E6).
    injection E1 as <-. injection E3 as <- <-.
    rewrite Hencaps in E4. injection E4 as <- <-.
    rewrite Hdecaps in E5. injection E5 as <-.
    apply (memcmp_is_zero_some _ _ _ _ Hcmp) in E6. discriminate.
Qed.

Lemma kyber_main_status_witness :
  exists o,
    main toy_world = Some o /\
    (status o = EXIT_SUCCESS <-> exchange_ok toy_world).
Proof.
  eexists. split; [vm_compute; reflexivity |].
  apply (kyber_main_status toy_world). vm_compute. reflexivity.
Defined.

(** X15. [main] writes to standard error exactly when it fails: the error
    text is empty if and only if the exit status is [EXIT_SUCCESS]. *)
Theorem kyber_main_stderr (w : World) (o : Outcome) :
  main w = Some o -> (stderr o = "" <-> status o = EXIT_SUCCESS).
Proof.
  unfold main. cbv zeta.
  repeat main_step;
    intros [= <-]; cbn [status stderr];
    (split; [intros H; try reflexivity; vm_compute in H; discriminate
            | intros H; try reflexivity; discriminate ]).
Qed.

Lemma kyber_main_stderr_witness :
  exists o,
    main toy_world = Some o /\
    (stderr o = "" <-> status o = EXIT_SUCCESS).
Proof.
  eexists. split; [vm_compute; reflexivity |].
  apply (kyber_main_stderr toy_world). vm_compute. reflexivity.
Defined.

(** X16. When every output buffer holds as many bytes as the method table
    says, [main] runs to its end without reading past a buffer. *)
Theorem kyber_main_defined (w : World) :
  buffers_sized w -> exists o, main w = Some o.
Proof.
  unfold main, buffers_sized. cbv zeta.
  destruct (OQS_KEM_new w) as [kem |]; [| eauto].
  destruct (_ || malloc_null w 4); [eauto |].
  destruct (OQS_KEM_keypair w) as [[rc1 pk] sk].
  destruct (OQS_KEM_encaps w pk) as [[rc2 ct] ssb].
  destruct (OQS_KEM_decaps w ct sk) as [rc3 ssa].
  intros (Hpk & Hsk & Hct & Hssb & Hssa).
  destruct (memcmp_is_zero_sized ssa ssb _ Hssa Hssb) as [same Hsame].
  rewrite !print_hex_some, Hsame by now apply shown_le.
  destruct rc1; cbv beta iota delta [is_success negb]; eauto.
  destruct rc2; cbv beta iota delta [is_success negb]; eauto.
  destruct rc3; cbv beta iota delta [is_success negb]; eauto.
  destruct same; eauto.
Qed.

Lemma kyber_main_defined_witness :
  buffers_sized toy_world /\ exists o, main toy_world = Some o.
Proof.
  split; [vm_compute; repeat split |].
  apply (kyber_main_defined toy_world). vm_compute. repeat split.
Defined.

End KyberMain.
